(** * gqlgenc client: request building and response interpretation

    A shallow embedding of [client/client.go]: the variable sanitizer
    [removeNils], the request builder [newRequest], the response interpreter
    [unmarshal] / [parseResponse] and the call [Post].

    Go maps are finite maps with unique keys ([gmap]); a nil map is [None].
    Byte slices and strings are [string] (a Rocq string is a sequence of
    8-bit characters, the conversion [string(body)] is the identity).
    Pointers that may be nil are [option]; a callee that writes through a
    pointer returns the new content. *)

From Stdlib Require Import ZArith String Ascii.
From stdpp Require Import gmap strings list fin_maps.

#[local] Set Warnings "-register-all".
Local Open Scope Z_scope.
Local Open Scope string_scope.

(** ** Variable sanitizer *)

Section Sanitizer.
(** [A] stands for every dynamic type other than [map[string]interface{}]
    (scalars, slices, pointers, structs, maps of a named or another type):
    the type assertion fails for them and the sanitizer passes them on
    without looking inside.  A nil pointer or nil slice held in the
    interface is such a value as well: the interface has a dynamic type, so
    [value != nil] is true for it. *)
Context {A : Type}.

(** An [interface{}] value as [removeNils] observes it. *)
Inductive iface : Type :=
| VNil                                      (* the nil interface: [value == nil] *)
| VMap (m : option (gmap string iface))     (* dynamic type [map[string]interface{}]; [None] is the nil map *)
| VOther (a : A).                           (* any other dynamic type; [value != nil] *)

(** The entries a [range] loop visits; ranging over a nil map visits none. *)
Definition entries (m : option (gmap string iface)) : gmap string iface :=
  default ∅ m.

(** [removeNils(value.(map[string]interface{}))] for a value whose type
    assertion succeeded.  The loop is a fold over the entries that starts
    from the fresh map [map[string]interface{}{}]. *)
Fixpoint removeNils_value (v : iface) : gmap string iface :=
  match v with
  | VMap (Some initialMap) =>
      map_fold (fun key value withoutNils =>
        match value with
        | VMap _ => <[key := VMap (Some (removeNils_value value))]> withoutNils
        | VNil => withoutNils
        | VOther _ => <[key := value]> withoutNils
        end) ∅ initialMap
  | _ => ∅
  end.

Definition removeNils (initialMap : option (gmap string iface))
  : option (gmap string iface) :=
  Some (removeNils_value (VMap initialMap)).

(** One iteration of the loop body of [removeNils]. *)
Definition removeNils_body (key : string) (value : iface)
    (withoutNils : gmap string iface) : gmap string iface :=
  match value with
  | VMap m => <[key := VMap (removeNils m)]> withoutNils
  | VNil => withoutNils
  | VOther _ => <[key := value]> withoutNils
  end.

(** What the loop stores for one entry, if anything. *)
Definition sanitized (value : iface) : option iface :=
  match value with
  | VMap m => Some (VMap (removeNils m))
  | VNil => None
  | VOther _ => Some value
  end.

(** The value found by following a path of keys through nested maps. *)
Fixpoint lookup_path (ks : list string) (v : iface) : option iface :=
  match ks with
  | [] => Some v
  | k :: ks' =>
      match v with
      | VMap m => entries m !! k ≫= lookup_path ks'
      | _ => None
      end
  end.

(** Does a nil interface occur in [v], at any depth of nested maps? *)
Fixpoint has_nil (v : iface) : bool :=
  match v with
  | VNil => true
  | VMap (Some m) => map_fold (fun _ v' b => has_nil v' || b) false m
  | VMap None => false
  | VOther _ => false
  end.

(** Does a nil map occur in [v], at any depth of nested maps? *)
Fixpoint has_nil_map (v : iface) : bool :=
  match v with
  | VMap None => true
  | VMap (Some m) => map_fold (fun _ v' b => has_nil_map v' || b) false m
  | VNil => false
  | VOther _ => false
  end.

Fixpoint value_size (v : iface) : nat :=
  match v with
  | VMap (Some m) => S (map_fold (fun _ v' n => (value_size v' + n)%nat) 0%nat m)
  | _ => 1%nat
  end.

End Sanitizer.

Arguments iface : clear implicits.

(** ** The JSON library, as far as the client relies on it

    [encoding/json] is not part of the repository.  This module describes
    the part of its behaviour that the client's decoding steps exercise:
    the syntax check of a whole document, decoding of an object into a struct
    with [json.RawMessage] fields, and decoding of the [errors] member into a
    list of [gqlerror.Error].  A decoder answers [NotModelled] on a document
    that leaves this fragment; nothing below evaluates it there. *)

Module json.

Inductive Value : Type :=
| Null
| Bool (b : bool)
| Number
| Str (body : string)                              (* the text between the quotes, escapes as written *)
| Array (elems : list Value)
| Object (members : list (string * string * Value)). (* key body, source text of the value, value *)

(** The outcome of scanning a prefix of the input. *)
Inductive scan (T : Type) : Type :=
| Ok (x : T) (rest : string)
| Invalid          (* a syntax error *)
| Unsupported.     (* nesting beyond the scanner's limit, or the fuel ran out *)
Arguments Ok {T}.
Arguments Invalid {T}.
Arguments Unsupported {T}.

Definition code (c : ascii) : N := N_of_ascii c.

Definition is_space (c : ascii) : bool :=
  let n := code c in ((n =? 32) || (n =? 9) || (n =? 10) || (n =? 13))%N.

Definition is_digit (c : ascii) : bool :=
  let n := code c in ((48 <=? n) && (n <=? 57))%N.

Definition is_hex (c : ascii) : bool :=
  let n := code c in
  (is_digit c || ((97 <=? n) && (n <=? 102)) || ((65 <=? n) && (n <=? 70)))%N.

Fixpoint skip_space (s : string) : string :=
  match s with
  | String c r => if is_space c then skip_space r else s
  | EmptyString => s
  end.

Fixpoint skip_digits (s : string) : string :=
  match s with
  | String c r => if is_digit c then skip_digits r else s
  | EmptyString => s
  end.

(** The text of [s] in front of its suffix [rest]. *)
Definition consumed (s rest : string) : string :=
  substring 0 (String.length s - String.length rest) s.

(** One or more digits. *)
Definition digits1 (s : string) : option string :=
  match s with
  | String c r => if is_digit c then Some (skip_digits r) else None
  | EmptyString => None
  end.

(** A number: an optional minus sign; a zero, or a non-zero digit and any
    digits; optionally a dot and one or more digits; optionally [e] or [E],
    an optional sign and one or more digits.  The result is the input after
    the number. *)
Definition scan_number (s : string) : option string :=
  let s1 := match s with String c r => if (code c =? 45)%N then r else s | _ => s end in
  let after_int :=
    match s1 with
    | String c r =>
        if (code c =? 48)%N then Some r
        else if is_digit c then Some (skip_digits r)
        else None
    | EmptyString => None
    end in
  let after_frac :=
    s2 ← after_int;
    match s2 with
    | String c r => if (code c =? 46)%N then digits1 r else Some s2
    | EmptyString => Some s2
    end in
  s3 ← after_frac;
  match s3 with
  | String c r =>
      if ((code c =? 101) || (code c =? 69))%N then
        match r with
        | String c' r' =>
            if ((code c' =? 43) || (code c' =? 45))%N then digits1 r' else digits1 r
        | EmptyString => None
        end
      else Some s3
  | EmptyString => Some s3
  end.

Inductive string_state : Type :=
| InString
| InStringEsc
| InStringEscU (remaining : nat).

(** The input after the closing quote of a string whose opening quote has
    been read. *)
Fixpoint scan_string (st : string_state) (s : string) : option string :=
  match s with
  | EmptyString => None
  | String c r =>
      let n := code c in
      match st with
      | InString =>
          if (n =? 34)%N then Some r
          else if (n =? 92)%N then scan_string InStringEsc r
          else if (n <? 32)%N then None
          else scan_string InString r
      | InStringEsc =>
          if ((n =? 98) || (n =? 102) || (n =? 110) || (n =? 114) || (n =? 116)
              || (n =? 92) || (n =? 47) || (n =? 34))%N
          then scan_string InString r
          else if (n =? 117)%N then scan_string (InStringEscU 3) r
          else None
      | InStringEscU k =>
          if is_hex c then
            match k with
            | O => scan_string InString r
            | S k' => scan_string (InStringEscU k') r
            end
          else None
      end
  end.

(** The input after the literal [lit], when the input starts with it. *)
Fixpoint scan_literal (lit s : string) : option string :=
  match lit with
  | EmptyString => Some s
  | String c lit' =>
      match s with
      | String c' r => if Ascii.eqb c c' then scan_literal lit' r else None
      | EmptyString => None
      end
  end.

Definition maxNestingDepth : N := 10000.

Definition scan_bind {T U : Type} (x : scan T) (f : T -> string -> scan U) : scan U :=
  match x with
  | Ok v rest => f v rest
  | Invalid => Invalid
  | Unsupported => Unsupported
  end.

(** The text between the quotes of a string that starts (after its opening
    quote) at [s] and ends in front of [rest]. *)
Definition string_body (s rest : string) : string :=
  substring 0 (String.length s - String.length rest - 1) s.

(** A recursive-descent reading of the scanner's grammar.  [parse_value]
    expects the first character of a value, [parse_elements] the first
    element of a non-empty array, [parse_members] the opening quote of a key
    of a non-empty object.  [depth] counts the enclosing arrays and objects. *)
Fixpoint parse_value (fuel : nat) (depth : N) (s : string) {struct fuel} : scan Value :=
  match fuel with
  | O => Unsupported
  | S fuel' =>
      match s with
      | EmptyString => Invalid
      | String c r =>
          let n := code c in
          if (n =? 123)%N then
            if (maxNestingDepth <=? depth)%N then Unsupported else
            match skip_space r with
            | EmptyString => Invalid
            | String c' r' =>
                if (code c' =? 125)%N then Ok (Object []) r'
                else scan_bind (parse_members fuel' (depth + 1) (skip_space r))
                       (fun ms rest => Ok (Object ms) rest)
            end
          else if (n =? 91)%N then
            if (maxNestingDepth <=? depth)%N then Unsupported else
            match skip_space r with
            | EmptyString => Invalid
            | String c' r' =>
                if (code c' =? 93)%N then Ok (Array []) r'
                else scan_bind (parse_elements fuel' (depth + 1) (skip_space r))
                       (fun vs rest => Ok (Array vs) rest)
            end
          else if (n =? 34)%N then
            match scan_string InString r with
            | Some rest => Ok (Str (string_body r rest)) rest
            | None => Invalid
            end
          else if ((n =? 45)%N || is_digit c) then
            match scan_number s with
            | Some rest => Ok Number rest
            | None => Invalid
            end
          else if (n =? 116)%N then
            match scan_literal "true" s with
            | Some rest => Ok (Bool true) rest
            | None => Invalid
            end
          else if (n =? 102)%N then
            match scan_literal "false" s with
            | Some rest => Ok (Bool false) rest
            | None => Invalid
            end
          else if (n =? 110)%N then
            match scan_literal "null" s with
            | Some rest => Ok Null rest
            | None => Invalid
            end
          else Invalid
      end
  end
with parse_elements (fuel : nat) (depth : N) (s : string) {struct fuel} : scan (list Value) :=
  match fuel with
  | O => Unsupported
  | S fuel' =>
      scan_bind (parse_value fuel' depth s) (fun v rest =>
        match skip_space rest with
        | EmptyString => Invalid
        | String c r =>
            if (code c =? 44)%N then
              scan_bind (parse_elements fuel' depth (skip_space r))
                (fun vs rest' => Ok (v :: vs) rest')
            else if (code c =? 93)%N then Ok [v] r
            else Invalid
        end)
  end
with parse_members (fuel : nat) (depth : N) (s : string) {struct fuel}
    : scan (list (string * string * Value)) :=
  match fuel with
  | O => Unsupported
  | S fuel' =>
      match s with
      | EmptyString => Invalid
      | String c r =>
          if negb (code c =? 34)%N then Invalid else
          match scan_string InString r with
          | None => Invalid
          | Some rest =>
              let key := string_body r rest in
              match skip_space rest with
              | EmptyString => Invalid
              | String c1 r1 =>
                  if negb (code c1 =? 58)%N then Invalid else
                  let sv := skip_space r1 in
                  scan_bind (parse_value fuel' depth sv) (fun v rest2 =>
                    let raw := consumed sv rest2 in
                    match skip_space rest2 with
                    | EmptyString => Invalid
                    | String c2 r2 =>
                        if (code c2 =? 44)%N then
                          scan_bind (parse_members fuel' depth (skip_space r2))
                            (fun ms rest3 => Ok ((key, raw, v) :: ms) rest3)
                        else if (code c2 =? 125)%N then Ok [(key, raw, v)] r2
                        else Invalid
                    end)
              end
          end
      end
  end.

(** A whole document: one value between optional white space. *)
Definition parse (data : string) : scan Value :=
  scan_bind (parse_value (2 * String.length data + 2) 0 (skip_space data))
    (fun v rest =>
       match skip_space rest with
       | EmptyString => Ok v EmptyString
       | String _ _ => Invalid
       end).

(** Error values of the decoder. *)
Inductive Error : Type :=
| SyntaxError
| UnmarshalTypeError
| NotModelled.

(** [json.RawMessage]: a byte slice, [None] when nil. *)
Definition RawMessage : Type := option string.

Definition len (m : RawMessage) : Z :=
  match m with
  | Some b => Z.of_nat (String.length b)
  | None => 0
  end.

(** A key or string whose text needs no unquoting: no escape, no byte
    outside ASCII. *)
Fixpoint is_plain (body : string) : bool :=
  match body with
  | EmptyString => true
  | String c r => ((code c <? 128) && negb (code c =? 92))%N && is_plain r
  end.

Definition lower (c : ascii) : ascii :=
  let n := code c in
  if ((65 <=? n) && (n <=? 90))%N then ascii_of_N (n + 32) else c.

Fixpoint lowercase (s : string) : string :=
  match s with
  | EmptyString => EmptyString
  | String c r => String (lower c) (lowercase r)
  end.

(** A key selects the struct field tagged [field] (a lower-case name) when
    it equals the tag, or equals it up to the case of its letters. *)
Definition selects (key field : string) : bool :=
  String.eqb (lowercase key) field.

(** JSON text written with apostrophes where the document has double
    quotes. *)
Fixpoint text (s : string) : string :=
  match s with
  | EmptyString => EmptyString
  | String c r => String (if (code c =? 39)%N then ascii_of_N 34 else c) (text r)
  end.

End json.


(** ** The client *)

(** HTTPError is the error when a GqlErrorList cannot be parsed. *)
Record HTTPError : Type := { Code : Z; Message : string }.

(** response is a GraphQL layer response from a handler. *)
Record response : Type := { Data : json.RawMessage; Errors : json.RawMessage }.

(** [*http.Request], as far as the client touches it. *)
Record http_Request : Type := {
  Method : string;
  URL : string;
  Header : gmap string (list string);
  Body : string
}.

(** [req.Header.Set(key, value)] for a key in canonical form. *)
Definition Header_Set (key val : string) (req : http_Request) : http_Request :=
  {| Method := Method req; URL := URL req;
     Header := <[key := [val]]> (Header req); Body := Body req |}.

(** HTTPRequestOption represents the options applicable to the http client.
    An option receives the request and may change it in place. *)
Definition HTTPRequestOption : Type := http_Request -> http_Request.

(** The calls of the response interpreter that leave [client.go].
    [error_value] are the error values they produce, [gqlerror_List] is
    [gqlerror.List], [Target] the content of the object the caller wants
    filled. *)
Class Decoders : Type := {
  error_value : Type;
  gqlerror_List : Type;
  Target : Type;
  (* json.Unmarshal(data, &resp) for resp of type response *)
  json_Unmarshal_response : string -> error_value + response;
  (* json.Unmarshal(data, errors) for errors of type *GqlErrorList *)
  json_Unmarshal_GqlErrorList : string -> error_value + gqlerror_List;
  (* graphqljson.UnmarshalData(data, res): the content of res afterwards, and the error *)
  graphqljson_UnmarshalData : json.RawMessage -> Target -> Target * option error_value
}.

(** The calls of the request builder that leave [client.go]; [context] is
    [context.Context]. *)
Class Encoders `{D : Decoders} : Type := {
  context : Type;
  (* json.Marshal(r) for r of type *Request with the given fields *)
  json_Marshal {A : Type} :
    string -> option (gmap string (iface A)) -> string -> error_value + string;
  (* http.NewRequestWithContext(ctx, method, url, bytes.NewBuffer(body)) *)
  http_NewRequestWithContext :
    context -> string -> string -> string -> error_value + http_Request
}.

Section Client.
Context `{T : Encoders} {A : Type}.

(** Request represents an outgoing GraphQL request. *)
Record Request : Type := {
  Query : string;
  Variables : option (gmap string (iface A));
  OperationName : string
}.

(** [*http.Response]: the status code, and what reading the body to its
    end gives. *)
Record http_Response : Type := {
  StatusCode : Z;
  ReadAll_Body : error_value + string
}.

(** Client is the http client wrapper; [Client_Do] is [c.Client.Do]. *)
Record Client : Type := {
  Client_Do : http_Request -> error_value + http_Response;
  BaseURL : string;
  HTTPRequestOptions : list HTTPRequestOption
}.

(** NewClient creates a new http client wrapper. *)
Definition NewClient (client : http_Request -> error_value + http_Response)
    (baseURL : string) (options : list HTTPRequestOption) : Client :=
  {| Client_Do := client; BaseURL := baseURL; HTTPRequestOptions := options |}.

(** GqlErrorList is the struct of a standard graphql error response. *)
Record GqlErrorList : Type := { GqlErrorList_Errors : gqlerror_List }.

(** ErrorResponse represent an handled error. *)
Record ErrorResponse : Type := {
  (* populated when http status code is not OK *)
  NetworkError : option HTTPError;
  (* populated when http status code is OK but the server returned at least one graphql error *)
  GqlErrors : option gqlerror_List
}.

(** A non-nil [error], by its dynamic type. *)
Inductive error : Type :=
| LibraryError (e : error_value)
| Errorf (format : string) (args : list string) (cause : error)   (* xerrors.Errorf(format, args..., cause) *)
| GqlErrorList_error (e : GqlErrorList)                          (* a *GqlErrorList *)
| ErrorResponse_error (er : ErrorResponse).                       (* a *ErrorResponse *)

(** HasErrors returns true when at least one error is declared. *)
Definition HasErrors (er : ErrorResponse) : bool :=
  bool_decide (NetworkError er <> None) || bool_decide (GqlErrors er <> None).

(** The two loops of [newRequest]: each option is called on the request, in
    the order of the slice. *)
Fixpoint apply_options (options : list HTTPRequestOption) (req : http_Request)
    : http_Request :=
  match options with
  | [] => req
  | httpRequestOption :: rest => apply_options rest (httpRequestOption req)
  end.

Definition newRequest (c : Client) (ctx : context) (query : string)
    (vars : option (gmap string (iface A)))
    (httpRequestOptions : list HTTPRequestOption) : error + http_Request :=
  let r := {| Query := query; Variables := removeNils vars; OperationName := "" |} in
  match json_Marshal (Query r) (Variables r) (OperationName r) with
  | inl err => inl (Errorf "encode: %w" [] (LibraryError err))
  | inr requestBody =>
      match http_NewRequestWithContext ctx "POST" (BaseURL c) requestBody with
      | inl err => inl (Errorf "create request struct failed: %w" [] (LibraryError err))
      | inr req =>
          let req := apply_options (HTTPRequestOptions c) req in
          let req := apply_options httpRequestOptions req in
          inr req
      end
  end.

Definition unmarshal (data : string) (res : Target) : Target * option error :=
  match json_Unmarshal_response data with
  | inl err =>
      (res, Some (Errorf "failed to decode data %s: %w" [data] (LibraryError err)))
  | inr resp =>
      if bool_decide (Errors resp <> None) && (0 <? json.len (Errors resp))%Z then
        (* try to parse standard graphql error *)
        match json_Unmarshal_GqlErrorList data with
        | inl e =>
            (res, Some (Errorf "faild to parse graphql errors. Response content %s - %w "
                          [data] (LibraryError e)))
        | inr errors => (res, Some (GqlErrorList_error {| GqlErrorList_Errors := errors |}))
        end
      else
        match graphqljson_UnmarshalData (Data resp) res with
        | (res', Some err) =>
            (res', Some (Errorf "failed to decode data into response %s: %w"
                           [data] (LibraryError err)))
        | (res', None) => (res', None)
        end
  end.

Definition parseResponse (body : string) (httpCode : Z) (result : Target)
    : Target * option error :=
  let isKOCode := ((httpCode <? 200) || (299 <? httpCode))%Z in
  let errResponse :=
    {| NetworkError :=
         if isKOCode
         then Some {| Code := httpCode; Message := "Response body " ++ body |}
         else None;
       GqlErrors := None |} in
  let finish (result : Target) (errResponse : ErrorResponse) :=
    if HasErrors errResponse then (result, Some (ErrorResponse_error errResponse))
    else (result, None) in
  (* some servers return a graphql error with a non OK http code, try anyway to parse the body *)
  match unmarshal body result with
  | (result, Some err) =>
      match err with
      | GqlErrorList_error gqlErr =>
          finish result {| NetworkError := NetworkError errResponse;
                           GqlErrors := Some (GqlErrorList_Errors gqlErr) |}
      | _ =>
          (* if is KO code there is already the http error, this error should not be returned *)
          if negb isKOCode then (result, Some err) else finish result errResponse
      end
  | (result, None) => finish result errResponse
  end.

(** Post sends a http POST request to the graphql endpoint with the given
    query then unpacks the response into the given object. *)
Definition Post (c : Client) (ctx : context) (query : string) (respData : Target)
    (vars : option (gmap string (iface A)))
    (httpRequestOptions : list HTTPRequestOption) : Target * option error :=
  match newRequest c ctx query vars httpRequestOptions with
  | inl err => (respData, Some (Errorf "don't create request: %w" [] err))
  | inr req =>
      let req := Header_Set "Content-Type" "application/json; charset=utf-8" req in
      let req := Header_Set "Accept" "application/json; charset=utf-8" req in
      match Client_Do c req with
      | inl err => (respData, Some (Errorf "request failed: %w" [] (LibraryError err)))
      | inr resp =>
          match ReadAll_Body resp with
          | inl err =>
              (respData, Some (Errorf "failed to read response body: %w" [] (LibraryError err)))
          | inr body => parseResponse body (StatusCode resp) respData
          end
      end
  end.

End Client.

(** ** The decoders as Go provides them *)

Module gqlerror.

(** [gqlerror.Error]; only its message is kept. *)
Record Error : Type := { Message : string }.

(** [gqlerror.List]: a slice of pointers, [None] for a nil pointer. *)
Definition List : Type := list (option Error).

End gqlerror.

Module GoJSON.
Import json.

(** The members of an object are stored in the order of the document; a
    member whose key selects a field overwrites what an earlier one stored. *)
Fixpoint decode_response (ms : list (string * string * Value)) (resp : response)
    : Error + response :=
  match ms with
  | [] => inr resp
  | (key, raw, _) :: ms' =>
      if negb (is_plain key) then inl NotModelled
      else if selects key "data" then
        decode_response ms' {| Data := Some raw; Errors := Errors resp |}
      else if selects key "errors" then
        decode_response ms' {| Data := Data resp; Errors := Some raw |}
      else decode_response ms' resp
  end.

(** [json.Unmarshal(data, &resp)] for a zero [resp] of type [response]: a
    [json.RawMessage] field receives the source text of its member, whatever
    the value is, the literal [null] included; the document [null] leaves
    the struct as it is; any other document that is not an object is a type
    error. *)
Definition Unmarshal_response (data : string) : Error + response :=
  match parse data with
  | Invalid => inl SyntaxError
  | Unsupported => inl NotModelled
  | Ok Null _ => inr {| Data := None; Errors := None |}
  | Ok (Object ms) _ => decode_response ms {| Data := None; Errors := None |}
  | Ok _ _ => inl UnmarshalTypeError
  end.

Fixpoint decode_Error_members (ms : list (string * string * Value)) (e : gqlerror.Error)
    : Error + gqlerror.Error :=
  match ms with
  | [] => inr e
  | (key, _, v) :: ms' =>
      if negb (is_plain key) then inl NotModelled
      else if selects key "message" then
        match v with
        | Str body =>
            if is_plain body then decode_Error_members ms' {| gqlerror.Message := body |}
            else inl NotModelled
        | Null => decode_Error_members ms' e
        | _ => inl UnmarshalTypeError
        end
      else if selects key "path" || selects key "locations" || selects key "extensions"
      then inl NotModelled
      else decode_Error_members ms' e
  end.

(** One element of the list, of type [*gqlerror.Error]. *)
Definition decode_Error (v : Value) : Error + option gqlerror.Error :=
  match v with
  | Null => inr None
  | Object ms =>
      match decode_Error_members ms {| gqlerror.Message := "" |} with
      | inl e => inl e
      | inr err => inr (Some err)
      end
  | _ => inl UnmarshalTypeError
  end.

Fixpoint decode_elements (vs : list Value) : Error + gqlerror.List :=
  match vs with
  | [] => inr []
  | v :: vs' =>
      match decode_Error v with
      | inl e => inl e
      | inr err =>
          match decode_elements vs' with
          | inl e => inl e
          | inr errs => inr (err :: errs)
          end
      end
  end.

(** The [errors] member, of type [gqlerror.List]: [null] gives the nil list,
    an array is decoded element by element, anything else is a type error. *)
Definition decode_List (v : Value) : Error + gqlerror.List :=
  match v with
  | Null => inr []
  | Array vs => decode_elements vs
  | _ => inl UnmarshalTypeError
  end.

(** [json.Unmarshal(data, errors)] for a zero [errors] of type
    [*GqlErrorList]; the result is its field [Errors]. *)
Definition Unmarshal_GqlErrorList (data : string) : Error + gqlerror.List :=
  match parse data with
  | Invalid => inl SyntaxError
  | Unsupported => inl NotModelled
  | Ok Null _ => inr []
  | Ok (Object ms) _ =>
      if negb (forallb (fun m => is_plain m.1.1) ms) then inl NotModelled else
      match filter (fun m => selects m.1.1 "errors" = true) ms with
      | [] => inr []
      | [(_, _, v)] => decode_List v
      | _ => inl NotModelled
      end
  | Ok _ _ => inl UnmarshalTypeError
  end.

(** The decoders of [encoding/json], with the data decoder of the caller's
    choice. *)
Definition decoders (Target : Type)
    (UnmarshalData : RawMessage -> Target -> Target * option Error) : Decoders :=
  {| error_value := Error;
     gqlerror_List := gqlerror.List;
     Target := Target;
     json_Unmarshal_response := Unmarshal_response;
     json_Unmarshal_GqlErrorList := Unmarshal_GqlErrorList;
     graphqljson_UnmarshalData := UnmarshalData |}.

(** The value of a text of decimal digits. *)
Fixpoint decimal (acc : Z) (s : string) : option Z :=
  match s with
  | EmptyString => Some acc
  | String c r =>
      if is_digit c then decimal (10 * acc + Z.of_N (code c) - 48) r else None
  end.

(** Modelled from the spec: [graphqljson.UnmarshalData] is not among the
    sources; the spec says that it decodes the data field into the target
    shape and fails when the data does not match the shape.  This is the
    decoder for the target of the spec's example, a struct with one integer
    field [x]: the data must be an object whose members are all named [x] and
    hold unsigned integers, or [null], which leaves the target as it is. *)
Fixpoint UnmarshalData_x_members (ms : list (string * string * Value)) (res : Z)
    : Z * option Error :=
  match ms with
  | [] => (res, None)
  | (key, raw, v) :: ms' =>
      if String.eqb key "x" then
        match v, decimal 0 raw with
        | Number, Some n => UnmarshalData_x_members ms' n
        | _, _ => (res, Some UnmarshalTypeError)
        end
      else (res, Some UnmarshalTypeError)
  end.

Definition UnmarshalData_x (data : RawMessage) (res : Z) : Z * option Error :=
  match data with
  | None => (res, Some SyntaxError)
  | Some raw =>
      match parse raw with
      | Ok Null _ => (res, None)
      | Ok (Object ms) _ => UnmarshalData_x_members ms res
      | Ok _ _ => (res, Some UnmarshalTypeError)
      | Invalid => (res, Some SyntaxError)
      | Unsupported => (res, Some NotModelled)
      end
  end.

End GoJSON.

(** A stand-in for the calls of the request builder, for the examples
    below; it is no description of [encoding/json] or [net/http].  The body
    is the query text, and the request is built with no header. *)
Definition example_encoders (D : Decoders) : Encoders :=
  {| context := unit;
     json_Marshal := fun _ query _ _ => inr query;
     http_NewRequestWithContext := fun _ method url body =>
       inr {| Method := method; URL := url; Header := ∅; Body := body |} |}.

(** A transport that answers every request with the given status and body. *)
Definition canned_transport `{D : Decoders} (status : Z) (body : string)
    : http_Request -> error_value + http_Response :=
  fun _ => inr {| StatusCode := status; ReadAll_Body := inr body |}.

(** A client of the examples: the transport answers 200 with the data of
    the spec's example, and one option sets a [Content-Type] of its own. *)
Definition example_client
    : Client (D := GoJSON.decoders Z GoJSON.UnmarshalData_x) :=
  NewClient (canned_transport 200 (json.text "{'data':{'x':1}}"))
    "http://localhost:8080/query" [Header_Set "Content-Type" "text/plain"].

(** The source text kept with each member of an object. *)
Definition member_texts_nonempty (v : json.Value) : Prop :=
  match v with
  | json.Object ms => Forall (fun m => m.1.2 ≠ "") ms
  | _ => True
  end.


(** ** Properties of the sanitizer *)

Section SanitizerProperties.
Context {A : Type}.
Implicit Types (m : gmap string (iface A)) (v : iface A) (k : string).

Lemma removeNils_body_value k v (acc : gmap string (iface A)) :
  match v with
  | VMap _ => <[k := VMap (Some (removeNils_value v))]> acc
  | VNil => acc
  | VOther _ => <[k := v]> acc
  end = removeNils_body k v acc.
Proof. by destruct v. Qed.

(** The fixpoint unfolds to the loop of the source. *)
Lemma removeNils_unfold (initialMap : option (gmap string (iface A))) :
  removeNils initialMap = Some (map_fold removeNils_body ∅ (entries initialMap)).
Proof.
  unfold removeNils. f_equal. destruct initialMap as [m|]; simpl.
  - rewrite !map_fold_foldr. induction (map_to_list m) as [|[k v] l IH]; simpl.
    + done.
    + rewrite IH. apply removeNils_body_value.
  - by rewrite map_fold_empty.
Qed.

Lemma lookup_removeNils_body k k' v (acc : gmap string (iface A)) :
  removeNils_body k v acc !! k' =
  if decide (k = k') then
    match sanitized v with Some v' => Some v' | None => acc !! k' end
  else acc !! k'.
Proof.
  destruct v; simpl; rewrite ?lookup_insert; by repeat case_decide.
Qed.

(** The output holds, under each key, what [sanitized] makes of the input's
    value under that key, and nothing else. *)
Lemma lookup_removeNils (initialMap : option (gmap string (iface A))) k :
  entries (removeNils initialMap) !! k = entries initialMap !! k ≫= sanitized.
Proof.
  rewrite removeNils_unfold. simpl. generalize (entries initialMap). intros m.
  revert k. apply (map_fold_weak_ind (fun r m => ∀ k, r !! k = m !! k ≫= sanitized)).
  - intros k. by rewrite !lookup_empty.
  - intros i x m' r Hi IH k. rewrite lookup_removeNils_body, lookup_insert.
    case_decide as Hk; simpl.
    + subst. destruct (sanitized x); [done|]. by rewrite IH, Hi.
    + apply IH.
Qed.

Lemma lookup_removeNils_value m k :
  removeNils_value (VMap (Some m)) !! k = m !! k ≫= sanitized.
Proof. exact (lookup_removeNils (Some m) k). Qed.

Lemma value_size_lookup m k v :
  m !! k = Some v → (value_size v < value_size (VMap (Some m)))%nat.
Proof.
  simpl. revert k v.
  apply (map_fold_weak_ind (fun r m => ∀ k v, m !! k = Some v → (value_size v < S r)%nat)).
  - intros k v. by rewrite lookup_empty.
  - intros i x m' r Hi IH k v. rewrite lookup_insert. case_decide.
    + intros [= ->]. lia.
    + intros Hk. specialize (IH _ _ Hk). lia.
Qed.

(** Induction over the nesting of maps. *)
Lemma iface_ind_nested (P : iface A → Prop) :
  P VNil →
  (∀ a, P (VOther a)) →
  P (VMap None) →
  (∀ m, (∀ k v, m !! k = Some v → P v) → P (VMap (Some m))) →
  ∀ v, P v.
Proof.
  intros Hnil Hother Hnone Hsome v.
  remember (value_size v) as n eqn:Hn. revert v Hn.
  induction n as [n IH] using lt_wf_ind. intros [|[m|]|a] Hn; auto.
  apply Hsome. intros k v Hk. apply (IH (value_size v)); [|done].
  subst n. by eapply value_size_lookup.
Qed.

Lemma has_nil_VMap_false m :
  has_nil (VMap (Some m)) = false ↔ ∀ k v, m !! k = Some v → has_nil v = false.
Proof.
  simpl.
  apply (map_fold_weak_ind
    (fun r m => r = false ↔ ∀ k v, m !! k = Some v → has_nil v = false)).
  - split; [|done]. intros _ k v. by rewrite lookup_empty.
  - intros i x m' r Hi IH. rewrite orb_false_iff, IH. split.
    + intros [Hx Hm] k v. rewrite lookup_insert. case_decide; [|by apply Hm].
      by intros [= <-].
    + intros H. split.
      * apply (H i). by rewrite lookup_insert_eq.
      * intros k v Hk. apply (H k). rewrite lookup_insert_ne; [done|].
        intros ->. by rewrite Hi in Hk.
Qed.

Lemma has_nil_map_VMap_false m :
  has_nil_map (VMap (Some m)) = false ↔ ∀ k v, m !! k = Some v → has_nil_map v = false.
Proof.
  simpl.
  apply (map_fold_weak_ind
    (fun r m => r = false ↔ ∀ k v, m !! k = Some v → has_nil_map v = false)).
  - split; [|done]. intros _ k v. by rewrite lookup_empty.
  - intros i x m' r Hi IH. rewrite orb_false_iff, IH. split.
    + intros [Hx Hm] k v. rewrite lookup_insert. case_decide; [|by apply Hm].
      by intros [= <-].
    + intros H. split.
      * apply (H i). by rewrite lookup_insert_eq.
      * intros k v Hk. apply (H k). rewrite lookup_insert_ne; [done|].
        intros ->. by rewrite Hi in Hk.
Qed.

(** [has_nil] says what it should: no path of keys ends in a nil interface. *)
Lemma has_nil_false_paths v :
  has_nil v = false ↔ ∀ ks, lookup_path ks v ≠ Some VNil.
Proof.
  induction v as [|a| |m IH] using iface_ind_nested.
  - split; [done|]. intros H. by destruct (H []).
  - split; [|done]. by intros _ [|k ks].
  - split; [|done]. intros _ [|k ks]; [done|]. simpl. by rewrite lookup_empty.
  - rewrite has_nil_VMap_false. split.
    + intros H [|k ks]; [done|]. simpl.
      destruct (m !! k) as [v|] eqn:Hk; [|done]. simpl.
      apply (IH k v Hk). by eapply H.
    + intros H k v Hk. apply (IH k v Hk). intros ks.
      specialize (H (k :: ks)). simpl in H. by rewrite Hk in H.
Qed.

(** What the loop stores has no nil interface and no nil map inside. *)
Lemma sanitized_clean v v' :
  sanitized v = Some v' → has_nil v' = false ∧ has_nil_map v' = false.
Proof.
  revert v'. induction v as [|a| |m IH] using iface_ind_nested; intros v'.
  - done.
  - by intros [= <-].
  - intros [= <-]. split; reflexivity.
  - intros [= <-]. unfold removeNils.
    rewrite has_nil_VMap_false, has_nil_map_VMap_false.
    assert (∀ k w, removeNils_value (VMap (Some m)) !! k = Some w →
              has_nil w = false ∧ has_nil_map w = false) as H.
    { intros k w. rewrite lookup_removeNils_value.
      destruct (m !! k) as [u|] eqn:Hk; [|done].
      simpl. by apply IH with k. }
    split; intros k w Hk; by destruct (H k w Hk).
Qed.

(** A value without nil interfaces and nil maps is stored as it is. *)
Lemma sanitized_fixed v :
  has_nil v = false → has_nil_map v = false → sanitized v = Some v.
Proof.
  induction v as [|a| |m IH] using iface_ind_nested; try done.
  rewrite has_nil_VMap_false, has_nil_map_VMap_false. intros Hn Hm. simpl.
  do 2 f_equal. unfold removeNils. f_equal. apply map_eq. intros k.
  rewrite lookup_removeNils_value.
  destruct (m !! k) as [u|] eqn:Hk; [|done]. simpl. by eapply IH; eauto.
Qed.

Lemma lookup_path_removeNils (initialMap : option (gmap string (iface A))) ks :
  lookup_path ks (VMap (removeNils initialMap)) =
  lookup_path ks (VMap initialMap) ≫= sanitized.
Proof.
  revert initialMap. induction ks as [|k ks IH]; intros initialMap; [done|].
  change (entries (removeNils initialMap) !! k ≫= lookup_path ks =
          (entries initialMap !! k ≫= lookup_path ks) ≫= sanitized).
  rewrite lookup_removeNils.
  destruct (entries initialMap !! k) as [[|m'|a]|]; simpl; [| apply IH | |done];
    by destruct ks.
Qed.

(** The order in which the loop visits the entries does not matter: Go
    leaves the order of a [range] over a map unspecified. *)
Lemma removeNils_any_order (initialMap : option (gmap string (iface A)))
    (visited : list (string * iface A)) :
  visited ≡ₚ map_to_list (entries initialMap) →
  removeNils initialMap =
  Some (foldr (uncurry removeNils_body) ∅ visited).
Proof.
  intros Hperm. rewrite removeNils_unfold, map_fold_foldr. f_equal.
  symmetry.
  apply (foldr_permutation (=) (uncurry removeNils_body)); [solve_proper| |done].
  intros j1 [k1 v1] j2 [k2 v2] b Hj H1 H2.
  assert (k1 ≠ k2) as Hk.
  { intros ->. apply Hj.
    assert (NoDup (visited.*1)) as Hnd.
    { rewrite Hperm. apply NoDup_fst_map_to_list. }
    apply (NoDup_lookup _ j1 j2 k2 Hnd); rewrite list_lookup_fmap.
    - by rewrite H1.
    - by rewrite H2. }
  destruct v1, v2; simpl; try done; by apply insert_insert_ne.
Qed.

(** C3: the output of the sanitizer has no nil interface at any depth of
    nested maps.  Along every path of keys it holds what [sanitized] makes of
    the input's value at that path: nothing for a nil interface, the
    sanitized map for a map, the value itself for anything else; it has no
    other keys.  A map without nil interfaces and nil maps, the empty map
    among them, comes back as it is. *)
Theorem removeNils_no_nil_at_any_depth (initialMap : option (gmap string (iface A))) :
  has_nil (VMap (removeNils initialMap)) = false
  ∧ (∀ ks, lookup_path ks (VMap (removeNils initialMap)) ≠ Some VNil)
  ∧ (∀ ks, lookup_path ks (VMap (removeNils initialMap)) =
           lookup_path ks (VMap initialMap) ≫= sanitized)
  ∧ (∀ k, entries (removeNils initialMap) !! k = entries initialMap !! k ≫= sanitized)
  ∧ (∀ m, has_nil (VMap (Some m)) = false → has_nil_map (VMap (Some m)) = false →
          removeNils (Some m) = Some m)
  ∧ removeNils (Some (∅ : gmap string (iface A))) = Some ∅.
Proof.
  assert (has_nil (VMap (removeNils initialMap)) = false) as Hclean.
  { by apply (sanitized_clean (VMap initialMap)). }
  split_and!.
  - done.
  - by apply has_nil_false_paths.
  - apply lookup_path_removeNils.
  - apply lookup_removeNils.
  - intros m Hn Hm. pose proof (sanitized_fixed _ Hn Hm) as H.
    unfold sanitized in H. congruence.
  - reflexivity.
Qed.

(** C9: sanitizing twice gives what sanitizing once gives. *)
Theorem removeNils_idempotent (initialMap : option (gmap string (iface A))) :
  removeNils (removeNils initialMap) = removeNils initialMap.
Proof.
  destruct (sanitized_clean (VMap initialMap) _ eq_refl) as [Hn Hm].
  pose proof (sanitized_fixed _ Hn Hm) as H. unfold sanitized in H. congruence.
Qed.

(** C10: the result is never the nil map; a nil or empty input gives the
    empty map; a key that holds a nil map of type [map[string]interface{}] is
    kept and holds the empty map, where a key that holds the nil interface is
    dropped. *)
Theorem removeNils_never_nil (initialMap : option (gmap string (iface A))) :
  is_Some (removeNils initialMap)
  ∧ removeNils (None : option (gmap string (iface A))) = Some ∅
  ∧ removeNils (Some (∅ : gmap string (iface A))) = Some ∅
  ∧ (∀ m k, entries (removeNils (Some (<[k := VMap None]> m))) !! k = Some (VMap (Some ∅)))
  ∧ (∀ m k, entries (removeNils (Some (<[k := VNil]> m))) !! k = None).
Proof.
  split_and!; try done.
  - intros m k. rewrite lookup_removeNils. simpl. by rewrite lookup_insert_eq.
  - intros m k. rewrite lookup_removeNils. simpl. by rewrite lookup_insert_eq.
Qed.

End SanitizerProperties.

(** The sanitizer on a map with a nil interface at two depths and a nil map. *)
Example removeNils_example :
  removeNils (Some (<["a" := VNil]> (<["b" := VOther 1]> (<["c" :=
     VMap (Some (<["d" := VNil]> (<["e" := VMap None]> (<["f" := VOther 2]> ∅))))]> ∅))))
  = Some (<["b" := VOther 1]> (<["c" :=
     VMap (Some (<["e" := VMap (Some ∅)]> (<["f" := VOther 2]> ∅)))]> ∅)).
Proof. vm_compute. reflexivity. Qed.

(** ** Properties of the request builder *)

Section RequestProperties.
Context `{T : Encoders} {A : Type}.




(** The variables of the request are the sanitized ones, and the envelope
    carries an empty operation name. *)
Lemma newRequest_marshals_sanitized (c : Client) (ctx : context) (query : string)
    (vars : option (gmap string (iface A)))
    (httpRequestOptions : list HTTPRequestOption) (err : error_value) :
  json_Marshal query (removeNils vars) "" = inl err →
  newRequest c ctx query vars httpRequestOptions =
  inl (Errorf "encode: %w" [] (LibraryError err)).
Proof. intros H. unfold newRequest. simpl. by rewrite H. Qed.

(** When the transport answers, the call returns what [parseResponse]
    makes of the answer. *)
Lemma Post_parseResponse (c : Client) (ctx : context) (query : string)
    (respData : Target) (vars : option (gmap string (iface A)))
    (httpRequestOptions : list HTTPRequestOption)
    (req : http_Request) (resp : http_Response) (body : string) :
  newRequest c ctx query vars httpRequestOptions = inr req →
  Client_Do c (Header_Set "Accept" "application/json; charset=utf-8"
                 (Header_Set "Content-Type" "application/json; charset=utf-8" req))
    = inr resp →
  ReadAll_Body resp = inr body →
  Post c ctx query respData vars httpRequestOptions =
  parseResponse body (StatusCode resp) respData.
Proof. intros Hreq Hdo Hbody. unfold Post. by rewrite Hreq, Hdo, Hbody. Qed.

End RequestProperties.

(** A later option sees, and may overwrite, what an earlier one did. *)
Example apply_options_in_order (req : http_Request) :
  Header (apply_options [Header_Set "Authorization" "construction";
                         Header_Set "Authorization" "call"] req)
    !! "Authorization" = Some ["call"].
Proof. simpl. by rewrite lookup_insert_eq. Qed.

(** ** Properties of the response interpreter *)

Section InterpreterProperties.
Context `{D : Decoders}.
Implicit Types (body : string) (httpCode : Z) (result : Target) (resp : response).

Lemma isKOCode_false httpCode :
  (200 ≤ httpCode ≤ 299)%Z → ((httpCode <? 200) || (299 <? httpCode))%Z = false.
Proof. lia. Qed.

Lemma isKOCode_true httpCode :
  (httpCode < 200 ∨ 299 < httpCode)%Z → ((httpCode <? 200) || (299 <? httpCode))%Z = true.
Proof. lia. Qed.

Lemma errors_guard_true resp :
  Errors resp ≠ None → (0 < json.len (Errors resp))%Z →
  bool_decide (Errors resp ≠ None) && (0 <? json.len (Errors resp))%Z = true.
Proof. intros H1 H2. rewrite bool_decide_eq_true_2 by done. simpl. lia. Qed.

Lemma errors_guard_false resp :
  Errors resp = None ∨ json.len (Errors resp) = 0%Z →
  bool_decide (Errors resp ≠ None) && (0 <? json.len (Errors resp))%Z = false.
Proof.
  intros [H|H].
  - by rewrite bool_decide_eq_false_2 by (by rewrite H; intros []).
  - rewrite H. apply andb_false_r.
Qed.

(** What [unmarshal] returns, by the outcome of the decoding steps. *)
Lemma unmarshal_envelope_error body result e :
  json_Unmarshal_response body = inl e →
  unmarshal body result =
  (result, Some (Errorf "failed to decode data %s: %w" [body] (LibraryError e))).
Proof. intros H. unfold unmarshal. by rewrite H. Qed.

Lemma unmarshal_errors body result resp :
  json_Unmarshal_response body = inr resp →
  Errors resp ≠ None → (0 < json.len (Errors resp))%Z →
  unmarshal body result =
  match json_Unmarshal_GqlErrorList body with
  | inl e =>
      (result, Some (Errorf "faild to parse graphql errors. Response content %s - %w "
                       [body] (LibraryError e)))
  | inr errors => (result, Some (GqlErrorList_error {| GqlErrorList_Errors := errors |}))
  end.
Proof.
  intros H Hnil Hlen. unfold unmarshal. by rewrite H, errors_guard_true.
Qed.

Lemma unmarshal_data body result resp :
  json_Unmarshal_response body = inr resp →
  Errors resp = None ∨ json.len (Errors resp) = 0%Z →
  unmarshal body result =
  match graphqljson_UnmarshalData (Data resp) result with
  | (result', Some err) =>
      (result', Some (Errorf "failed to decode data into response %s: %w"
                        [body] (LibraryError err)))
  | (result', None) => (result', None)
  end.
Proof.
  intros H Hnone. unfold unmarshal. by rewrite H, errors_guard_false.
Qed.

(** The part of C1 that the code satisfies: with a status in the success
    range and no [errors] member in the envelope, the data is decoded into
    the target and the call returns no error. *)
Lemma parseResponse_data_decoded body httpCode result resp result' :
  (200 ≤ httpCode ≤ 299)%Z →
  json_Unmarshal_response body = inr resp →
  Errors resp = None ∨ json.len (Errors resp) = 0%Z →
  graphqljson_UnmarshalData (Data resp) result = (result', None) →
  parseResponse body httpCode result = (result', None).
Proof.
  intros Hcode Hresp Hnone Hdata. unfold parseResponse.
  rewrite (unmarshal_data _ _ _ Hresp Hnone), Hdata, (isKOCode_false _ Hcode).
  reflexivity.
Qed.

(** C2, as the code has it: when the envelope has a non-empty [errors]
    payload that does not decode as an error list, the call returns the
    decoding error itself if the status is in the success range; with any
    other status it returns an ErrorResponse that holds the NetworkError
    only.  The target is not written. *)
Theorem errors_payload_decode_failure body httpCode result resp e :
  json_Unmarshal_response body = inr resp →
  Errors resp ≠ None → (0 < json.len (Errors resp))%Z →
  json_Unmarshal_GqlErrorList body = inl e →
  parseResponse body httpCode result =
  if bool_decide (200 ≤ httpCode ≤ 299)%Z then
    (result, Some (Errorf "faild to parse graphql errors. Response content %s - %w "
                     [body] (LibraryError e)))
  else
    (result, Some (ErrorResponse_error
       {| NetworkError := Some {| Code := httpCode; Message := "Response body " ++ body |};
          GqlErrors := None |})).
Proof.
  intros Hresp Hnil Hlen Hlist. unfold parseResponse.
  rewrite (unmarshal_errors _ _ _ Hresp Hnil Hlen), Hlist.
  case_bool_decide as Hcode.
  - by rewrite (isKOCode_false _ Hcode).
  - rewrite isKOCode_true by lia. reflexivity.
Qed.

(** C5: with a status outside the success range and a body that does not
    decode as an envelope, the call returns an ErrorResponse whose
    NetworkError has the status and a message that ends in the body, and
    whose error list is absent; the decoding error is not returned, and the
    target is not written. *)
Theorem network_error_suppresses_decode_error body httpCode result e :
  (httpCode < 200 ∨ 299 < httpCode)%Z →
  json_Unmarshal_response body = inl e →
  parseResponse body httpCode result =
  (result, Some (ErrorResponse_error
     {| NetworkError := Some {| Code := httpCode; Message := "Response body " ++ body |};
        GqlErrors := None |})).
Proof.
  intros Hcode Hresp. unfold parseResponse.
  rewrite (unmarshal_envelope_error _ _ _ Hresp), (isKOCode_true _ Hcode).
  reflexivity.
Qed.

(** The part of C6 that the code satisfies: with a status in the success
    range, an envelope whose [Errors] field is nil or empty (under the
    decoders of Go: a body with no [errors] member) and a data field that the
    data decoder rejects, the call returns the decoding error as a plain
    error, not an ErrorResponse. *)
Theorem data_mismatch_is_decode_error body httpCode result resp result' err :
  (200 ≤ httpCode ≤ 299)%Z →
  json_Unmarshal_response body = inr resp →
  Errors resp = None ∨ json.len (Errors resp) = 0%Z →
  graphqljson_UnmarshalData (Data resp) result = (result', Some err) →
  parseResponse body httpCode result =
  (result', Some (Errorf "failed to decode data into response %s: %w"
                    [body] (LibraryError err))).
Proof.
  intros Hcode Hresp Hnone Hdata. unfold parseResponse.
  rewrite (unmarshal_data _ _ _ Hresp Hnone), Hdata, (isKOCode_false _ Hcode).
  reflexivity.
Qed.

(** C7: when the envelope has a non-empty [errors] payload that decodes as
    an error list, the target comes back as it was given, whatever the data
    field holds and whatever the data decoder would do with it; the call
    returns an ErrorResponse with that list, and with the NetworkError
    exactly when the status is outside the success range. *)
Theorem errors_present_target_untouched body httpCode result resp errors :
  json_Unmarshal_response body = inr resp →
  Errors resp ≠ None → (0 < json.len (Errors resp))%Z →
  json_Unmarshal_GqlErrorList body = inr errors →
  parseResponse body httpCode result =
  (result, Some (ErrorResponse_error
     {| NetworkError :=
          if bool_decide (200 ≤ httpCode ≤ 299)%Z then None
          else Some {| Code := httpCode; Message := "Response body " ++ body |};
        GqlErrors := Some errors |})).
Proof.
  intros Hresp Hnil Hlen Hlist. unfold parseResponse.
  rewrite (unmarshal_errors _ _ _ Hresp Hnil Hlen), Hlist.
  case_bool_decide as Hcode.
  - by rewrite (isKOCode_false _ Hcode).
  - rewrite isKOCode_true by lia. reflexivity.
Qed.

End InterpreterProperties.

(** ** The interpreter on the decoders of Go *)

(** The decoders of Go with the data decoder of the spec's example. *)
Abbreviation go_x := (GoJSON.decoders Z GoJSON.UnmarshalData_x).

Section GoResponses.
Context (Target : Type)
        (UnmarshalData : json.RawMessage -> Target -> Target * option json.Error).
Local Abbreviation go := (GoJSON.decoders Target UnmarshalData).

(** C1 (where the code departs from it): a [json.RawMessage] field keeps the
    text [null] of a null member, four bytes, so the test on the length of
    [resp.Errors] sends the body to the error branch.  With status 200 and
    [errors] null the call returns an ErrorResponse that holds no
    NetworkError and an error list without entries, and the data is not
    decoded into the target. *)
Theorem parseResponse_errors_null (result : Target) :
  parseResponse (D := go) (json.text "{'data':{'x':1},'errors':null}") 200 result =
  (result,
   Some (ErrorResponse_error (@Build_ErrorResponse go None (Some [])))).
Proof. reflexivity. Qed.

(** The same happens with an empty array. *)
Lemma parseResponse_errors_empty_array (result : Target) :
  parseResponse (D := go) (json.text "{'data':{'x':1},'errors':[]}") 200 result =
  (result,
   Some (ErrorResponse_error (@Build_ErrorResponse go None (Some [])))).
Proof. reflexivity. Qed.

(** C4: with status 500 and a body that holds one protocol error, the call
    returns one ErrorResponse with both parts set: the NetworkError with code
    500 and the list with the one error. *)
Theorem status_500_with_errors_sets_both (result : Target) :
  parseResponse (D := go)
    (json.text "{'errors':[{'message':'server exploded'}]}") 500 result =
  (result,
   Some (ErrorResponse_error (@Build_ErrorResponse go
     (Some {| Code := 500;
              Message := "Response body "
                         ++ json.text "{'errors':[{'message':'server exploded'}]}" |})
     (Some [Some {| gqlerror.Message := "server exploded" |}])))).
Proof. reflexivity. Qed.

End GoResponses.

(** The bodies of the spec's examples on the data decoder of its example. *)
Example parseResponse_success :
  parseResponse (D := go_x) (json.text "{'data':{'x':1}}") 200 0 = (1, None).
Proof. reflexivity. Qed.

Example parseResponse_bad_field :
  parseResponse (D := go_x)
    (json.text "{'data':null,'errors':[{'message':'bad field'}]}") 200 0 =
  (0, Some (ErrorResponse_error (@Build_ErrorResponse go_x None
              (Some [Some {| gqlerror.Message := "bad field" |}])))).
Proof. reflexivity. Qed.

(** C2 fails with status 500: the [errors] member is a string, which is not
    an error list, and the call returns an ErrorResponse with the
    NetworkError instead of the decoding error. *)
Lemma errors_payload_decode_failure_hidden_at_500 :
  let body := json.text "{'errors':'oops'}" in
  json_Unmarshal_response (Decoders := go_x) body =
    inr {| Data := None; Errors := Some (json.text "'oops'") |}
  ∧ json_Unmarshal_GqlErrorList (Decoders := go_x) body = inl json.UnmarshalTypeError
  ∧ parseResponse (D := go_x) body 500 0 =
    (0, Some (ErrorResponse_error (@Build_ErrorResponse go_x
                (Some {| Code := 500; Message := "Response body " ++ body |})
                None))).
Proof. repeat split. Qed.

Lemma errors_payload_decode_failure_witness :
  parseResponse (D := go_x) (json.text "{'errors':'oops'}") 200 0 =
  (0, Some (Errorf "faild to parse graphql errors. Response content %s - %w "
              [json.text "{'errors':'oops'}"] (LibraryError (D := go_x) json.UnmarshalTypeError))).
Proof.
  apply (errors_payload_decode_failure (D := go_x)
           (json.text "{'errors':'oops'}") 200 0
           {| Data := None; Errors := Some (json.text "'oops'") |}
           json.UnmarshalTypeError).
  - reflexivity.
  - discriminate.
  - reflexivity.
  - reflexivity.
Defined.

Lemma network_error_suppresses_decode_error_witness :
  parseResponse (D := go_x) "Bad Gateway" 502 0 =
  (0, Some (ErrorResponse_error (@Build_ErrorResponse go_x
              (Some {| Code := 502; Message := "Response body Bad Gateway" |})
              None))).
Proof.
  apply (network_error_suppresses_decode_error (D := go_x)
           "Bad Gateway" 502 0 json.SyntaxError).
  - right. reflexivity.
  - reflexivity.
Defined.

Lemma data_mismatch_is_decode_error_witness :
  parseResponse (D := go_x) (json.text "{'data':{'x':'one'}}") 200 0 =
  (0, Some (Errorf "failed to decode data into response %s: %w"
              [json.text "{'data':{'x':'one'}}"] (LibraryError (D := go_x) json.UnmarshalTypeError))).
Proof.
  apply (data_mismatch_is_decode_error (D := go_x)
           (json.text "{'data':{'x':'one'}}") 200 0
           {| Data := Some (json.text "{'x':'one'}"); Errors := None |}
           0 json.UnmarshalTypeError).
  - split; discriminate.
  - reflexivity.
  - left. reflexivity.
  - reflexivity.
Defined.

Lemma errors_present_target_untouched_witness :
  parseResponse (D := go_x)
    (json.text "{'data':{'x':1},'errors':[{'message':'bad field'}]}") 200 0 =
  (0, Some (ErrorResponse_error (@Build_ErrorResponse go_x None
              (Some [Some {| gqlerror.Message := "bad field" |}])))).
Proof.
  apply (errors_present_target_untouched (D := go_x)
           (json.text "{'data':{'x':1},'errors':[{'message':'bad field'}]}") 200 0
           {| Data := Some (json.text "{'x':1}");
              Errors := Some (json.text "[{'message':'bad field'}]") |}
           [Some {| gqlerror.Message := "bad field" |}]).
  - reflexivity.
  - discriminate.
  - reflexivity.
  - reflexivity.
Defined.

(** ** Further properties of the sanitizer *)

Section SanitizerComposition.
Context {A : Type}.
Implicit Types (m : gmap string (iface A)) (v : iface A) (k : string).

Lemma foldl_removeNils_body (visited : list (string * iface A))
    (acc : gmap string (iface A)) :
  foldl (fun withoutNils kv => removeNils_body kv.1 kv.2 withoutNils) acc visited =
  foldr (uncurry removeNils_body) acc (reverse visited).
Proof.
  revert acc. induction visited as [|[k v] visited IH]; intros acc; [done|].
  simpl. by rewrite IH, reverse_cons, foldr_app.
Qed.

(** The output of the sanitizer is one of its fixed points. *)
Lemma removeNils_output_fixed (initialMap : option (gmap string (iface A))) :
  removeNils (removeNils initialMap) = removeNils initialMap.
Proof.
  destruct (sanitized_clean (VMap initialMap) _ eq_refl) as [Hn Hm].
  pose proof (sanitized_fixed _ Hn Hm) as H. unfold sanitized in H. congruence.
Qed.

(** X1: the loop of [removeNils] may visit the entries of the map in any
    order, as a Go [range] does: running the loop body over any enumeration
    of the entries, first to last, from the empty map gives the result of
    [removeNils]. *)
Theorem removeNils_visit_order (initialMap : option (gmap string (iface A)))
    (visited : list (string * iface A)) :
  visited ≡ₚ map_to_list (entries initialMap) →
  removeNils initialMap =
  Some (foldl (fun withoutNils kv => removeNils_body kv.1 kv.2 withoutNils) ∅ visited).
Proof.
  intros Hperm. rewrite foldl_removeNils_body.
  apply removeNils_any_order. by rewrite reverse_Permutation.
Qed.

(** X2: the sanitizer follows an update of its input key by key.  Storing
    a value under a key changes the output under that key only: the key is
    dropped when the value is the nil interface, and holds the sanitized
    value otherwise; deleting a key from the input deletes it from the
    output. *)
Theorem removeNils_insert_delete m k v :
  removeNils (Some (<[k := v]> m)) =
    Some (match sanitized v with
          | Some v' => <[k := v']> (entries (removeNils (Some m)))
          | None => delete k (entries (removeNils (Some m)))
          end)
  ∧ removeNils (Some (delete k m)) = Some (delete k (entries (removeNils (Some m)))).
Proof.
  split; unfold removeNils at 1; f_equal; apply map_eq; intros k'.
  - rewrite lookup_removeNils_value, lookup_insert.
    destruct (sanitized v) as [v'|] eqn:Hv.
    + rewrite lookup_insert, lookup_removeNils. simpl.
      case_decide; simpl; [done|done].
    + rewrite lookup_delete, lookup_removeNils. simpl.
      case_decide; simpl; [done|done].
  - rewrite lookup_removeNils_value, !lookup_delete, lookup_removeNils. simpl.
    by case_decide.
Qed.

End SanitizerComposition.

Lemma removeNils_visit_order_witness :
  removeNils (Some (<["a" := VNil]> (<["b" := VOther 1]> ∅))) =
  Some (foldl (fun withoutNils kv => removeNils_body kv.1 kv.2 withoutNils) ∅
          [("b", VOther 1); ("a", VNil)]).
Proof.
  apply (removeNils_visit_order
           (Some (<["a" := VNil]> (<["b" := VOther 1]> ∅)))
           [("b", VOther 1); ("a", VNil)]).
  vm_compute. first [reflexivity | apply perm_swap].
Defined.

(** ** Further properties of the response interpreter *)

Section InterpreterOutcomes.
Context `{D : Decoders}.
Implicit Types (body : string) (httpCode : Z) (result : Target) (resp : response).

Lemma unmarshal_target body result :
  (unmarshal body result).1 = result
  ∨ ∃ resp, json_Unmarshal_response body = inr resp
      ∧ (Errors resp = None ∨ json.len (Errors resp) = 0%Z)
      ∧ (unmarshal body result).1 = (graphqljson_UnmarshalData (Data resp) result).1.
Proof.
  unfold unmarshal. destruct (json_Unmarshal_response body) as [e|resp]; [by left|].
  destruct (bool_decide (Errors resp ≠ None) && (0 <? json.len (Errors resp))%Z) eqn:Hg.
  - left. by destruct (json_Unmarshal_GqlErrorList body).
  - right. exists resp. split; [done|]. split.
    + apply andb_false_iff in Hg as [Hg|Hg].
      * left. apply bool_decide_eq_false in Hg. by destruct (Errors resp); [destruct Hg|].
      * right. destruct (Errors resp); simpl in *; lia.
    + by destruct (graphqljson_UnmarshalData (Data resp) result) as [r [err|]].
Qed.

Lemma parseResponse_target body httpCode result :
  (parseResponse body httpCode result).1 = (unmarshal body result).1.
Proof.
  unfold parseResponse. destruct (unmarshal body result) as [r [err|]]; simpl.
  - destruct err; simpl; repeat case_match; done.
  - by case_match.
Qed.

(** Nil is returned only for a status in the success range. *)
Lemma parseResponse_nil_status body httpCode result :
  (parseResponse body httpCode result).2 = None → (200 ≤ httpCode ≤ 299)%Z.
Proof.
  destruct (decide (200 ≤ httpCode ≤ 299)%Z) as [Hcode|Hcode]; [done|].
  unfold parseResponse, HasErrors. rewrite isKOCode_true by lia.
  destruct (unmarshal body result) as [r [[]|]]; simpl; done.
Qed.

(** X3: what [parseResponse] can return.  It returns nil or a plain
    decoding error only for a status in the success range.  An ErrorResponse
    that it returns always has an error, and holds the NetworkError, made of
    the status and the body, exactly when the status is outside the range.
    It never returns a [*GqlErrorList] or a library error as such. *)
Theorem parseResponse_outcomes body httpCode result :
  match (parseResponse body httpCode result).2 with
  | None => (200 ≤ httpCode ≤ 299)%Z
  | Some (Errorf _ _ _) => (200 ≤ httpCode ≤ 299)%Z
  | Some (ErrorResponse_error er) =>
      HasErrors er = true
      ∧ NetworkError er =
          if bool_decide (200 ≤ httpCode ≤ 299)%Z then None
          else Some {| Code := httpCode; Message := "Response body " ++ body |}
  | Some (GqlErrorList_error _) => False
  | Some (LibraryError _) => False
  end.
Proof.
  unfold parseResponse, unmarshal, HasErrors.
  destruct (decide (200 ≤ httpCode ≤ 299)%Z) as [Hcode|Hcode].
  - rewrite (isKOCode_false _ Hcode), (bool_decide_eq_true_2 _ Hcode).
    repeat case_match; simplify_eq/=; done.
  - rewrite isKOCode_true by lia. rewrite (bool_decide_eq_false_2 _ Hcode).
    repeat case_match; simplify_eq/=; done.
Qed.

(** X4: [parseResponse] returns nil exactly when the status is in the
    success range, the body decodes as an envelope without an [errors]
    payload, and the data decoder accepts the data. *)
Theorem parseResponse_nil_iff body httpCode result :
  (parseResponse body httpCode result).2 = None ↔
  (200 ≤ httpCode ≤ 299)%Z
  ∧ ∃ resp, json_Unmarshal_response body = inr resp
      ∧ (Errors resp = None ∨ json.len (Errors resp) = 0%Z)
      ∧ (graphqljson_UnmarshalData (Data resp) result).2 = None.
Proof.
  split.
  - intros Hnil. pose proof (parseResponse_nil_status _ _ _ Hnil) as Hout.
    split; [done|].
    revert Hnil. unfold parseResponse, unmarshal, HasErrors.
    rewrite (isKOCode_false _ Hout).
    destruct (json_Unmarshal_response body) as [e|resp]; [done|].
    destruct (bool_decide (Errors resp ≠ None) && (0 <? json.len (Errors resp))%Z) eqn:Hg.
    { by destruct (json_Unmarshal_GqlErrorList body). }
    intros Hnil. exists resp. split; [done|]. split.
    + apply andb_false_iff in Hg as [Hg|Hg].
      * left. apply bool_decide_eq_false in Hg. by destruct (Errors resp); [destruct Hg|].
      * right. destruct (Errors resp); simpl in *; lia.
    + by destruct (graphqljson_UnmarshalData (Data resp) result) as [r [err|]].
  - intros (Hcode & resp & Hresp & Hnone & Hdata).
    destruct (graphqljson_UnmarshalData (Data resp) result) as [r err] eqn:Hd.
    simpl in Hdata. subst err.
    by rewrite (parseResponse_data_decoded _ _ _ _ _ Hcode Hresp Hnone Hd).
Qed.

(** X5: with a status outside the success range and an envelope without an
    [errors] payload, the data is still decoded into the target; whether the
    data decoder fails or not, the call returns an ErrorResponse that holds
    the NetworkError only. *)
Theorem parseResponse_failure_status_decodes_data body httpCode result resp :
  (httpCode < 200 ∨ 299 < httpCode)%Z →
  json_Unmarshal_response body = inr resp →
  Errors resp = None ∨ json.len (Errors resp) = 0%Z →
  parseResponse body httpCode result =
  ((graphqljson_UnmarshalData (Data resp) result).1,
   Some (ErrorResponse_error
     {| NetworkError := Some {| Code := httpCode; Message := "Response body " ++ body |};
        GqlErrors := None |})).
Proof.
  intros Hcode Hresp Hnone. unfold parseResponse.
  rewrite (unmarshal_data _ _ _ Hresp Hnone), (isKOCode_true _ Hcode).
  by destruct (graphqljson_UnmarshalData (Data resp) result) as [r [err|]].
Qed.

(** X6: with a status in the success range and a body that does not decode
    as an envelope, the call returns the decoder's error, wrapped with the
    body, as a plain error, and the target is not written. *)
Theorem parseResponse_success_status_envelope_failure body httpCode result e :
  (200 ≤ httpCode ≤ 299)%Z →
  json_Unmarshal_response body = inl e →
  parseResponse body httpCode result =
  (result, Some (Errorf "failed to decode data %s: %w" [body] (LibraryError e))).
Proof.
  intros Hcode Hresp. unfold parseResponse.
  by rewrite (unmarshal_envelope_error _ _ _ Hresp), (isKOCode_false _ Hcode).
Qed.

(** X7: the status never decides what is written to the target: the
    target after the call is the same for any two statuses. *)
Theorem parseResponse_target_ignores_status body result code1 code2 :
  (parseResponse body code1 result).1 = (parseResponse body code2 result).1.
Proof. by rewrite !parseResponse_target. Qed.

(** X8: all statuses in the success range are handled alike: two of them
    give the same result on the same body. *)
Theorem parseResponse_success_statuses_alike body result code1 code2 :
  (200 ≤ code1 ≤ 299)%Z → (200 ≤ code2 ≤ 299)%Z →
  parseResponse body code1 result = parseResponse body code2 result.
Proof.
  intros H1 H2. unfold parseResponse.
  by rewrite (isKOCode_false _ H1), (isKOCode_false _ H2).
Qed.

End InterpreterOutcomes.

Lemma parseResponse_failure_status_decodes_data_witness :
  parseResponse (D := go_x) (json.text "{'data':{'x':1}}") 500 0 =
  (1, Some (ErrorResponse_error (@Build_ErrorResponse go_x
              (Some {| Code := 500;
                       Message := "Response body " ++ json.text "{'data':{'x':1}}" |})
              None))).
Proof.
  apply (parseResponse_failure_status_decodes_data (D := go_x)
           (json.text "{'data':{'x':1}}") 500 0
           {| Data := Some (json.text "{'x':1}"); Errors := None |}).
  - right. reflexivity.
  - reflexivity.
  - left. reflexivity.
Defined.

Lemma parseResponse_success_status_envelope_failure_witness :
  parseResponse (D := go_x) "Bad Gateway" 200 0 =
  (0, Some (Errorf "failed to decode data %s: %w" ["Bad Gateway"]
              (LibraryError (D := go_x) json.SyntaxError))).
Proof.
  apply (parseResponse_success_status_envelope_failure (D := go_x)
           "Bad Gateway" 200 0 json.SyntaxError).
  - split; discriminate.
  - reflexivity.
Defined.

Lemma parseResponse_success_statuses_alike_witness :
  parseResponse (D := go_x) (json.text "{'data':{'x':1}}") 200 0 =
  parseResponse (D := go_x) (json.text "{'data':{'x':1}}") 204 0.
Proof.
  apply (parseResponse_success_statuses_alike (D := go_x)
           (json.text "{'data':{'x':1}}") 0 200 204); split; discriminate.
Defined.

(** ** Further properties of the call *)

Section CallProperties.
Context `{T : Encoders} {A : Type}.

(** The request that [Post] hands to the transport. *)
Lemma Post_dispatch (c : Client) (ctx : context) (query : string)
    (respData : Target) (vars : option (gmap string (iface A)))
    (httpRequestOptions : list HTTPRequestOption) (req : http_Request) :
  newRequest c ctx query vars httpRequestOptions = inr req →
  Post c ctx query respData vars httpRequestOptions =
  match Client_Do c (Header_Set "Accept" "application/json; charset=utf-8"
                       (Header_Set "Content-Type" "application/json; charset=utf-8" req)) with
  | inl err => (respData, Some (Errorf "request failed: %w" [] (LibraryError err)))
  | inr resp =>
      match ReadAll_Body resp with
      | inl err =>
          (respData, Some (Errorf "failed to read response body: %w" [] (LibraryError err)))
      | inr body => parseResponse body (StatusCode resp) respData
      end
  end.
Proof. intros Hreq. unfold Post. by rewrite Hreq. Qed.

(** X9: the variables are sanitized once more by every call, and this
    changes nothing for variables that are sanitized already: the request
    and the outcome of the call are the same for the variables and for the
    sanitized variables. *)
Theorem Post_sanitized_variables (c : Client) (ctx : context) (query : string)
    (respData : Target) (vars : option (gmap string (iface A)))
    (httpRequestOptions : list HTTPRequestOption) :
  newRequest c ctx query (removeNils vars) httpRequestOptions =
    newRequest c ctx query vars httpRequestOptions
  ∧ Post c ctx query respData (removeNils vars) httpRequestOptions =
    Post c ctx query respData vars httpRequestOptions.
Proof.
  assert (newRequest c ctx query (removeNils vars) httpRequestOptions =
          newRequest c ctx query vars httpRequestOptions) as Hreq.
  { unfold newRequest. simpl. by rewrite removeNils_output_fixed. }
  split; [done|]. unfold Post. by rewrite Hreq.
Qed.

(** X10: the request that reaches the transport has the headers
    [Content-Type] and [Accept] set to the JSON media type, whatever the
    options did to them, since [Post] sets them after the options have run;
    every other header, the method, the URL and the body are as
    [newRequest] returned them. *)
Theorem Post_fixes_content_headers (c : Client) (ctx : context) (query : string)
    (respData : Target) (vars : option (gmap string (iface A)))
    (httpRequestOptions : list HTTPRequestOption) (req : http_Request) :
  newRequest c ctx query vars httpRequestOptions = inr req →
  ∃ sent : http_Request,
    Header sent !! "Content-Type" = Some ["application/json; charset=utf-8"]
    ∧ Header sent !! "Accept" = Some ["application/json; charset=utf-8"]
    ∧ (∀ key, key ≠ "Content-Type" → key ≠ "Accept" →
         Header sent !! key = Header req !! key)
    ∧ Method sent = Method req ∧ URL sent = URL req ∧ Body sent = Body req
    ∧ Post c ctx query respData vars httpRequestOptions =
      match Client_Do c sent with
      | inl err => (respData, Some (Errorf "request failed: %w" [] (LibraryError err)))
      | inr resp =>
          match ReadAll_Body resp with
          | inl err =>
              (respData,
               Some (Errorf "failed to read response body: %w" [] (LibraryError err)))
          | inr body => parseResponse body (StatusCode resp) respData
          end
      end.
Proof.
  intros Hreq. eexists. split_and!; [..|by apply Post_dispatch]; simpl.
  - rewrite lookup_insert_ne by done. by rewrite lookup_insert_eq.
  - by rewrite lookup_insert_eq.
  - intros key H1 H2. by rewrite !lookup_insert_ne.
  - done.
  - done.
  - done.
Qed.

(** X11: the target is written by the data decoder and by nothing else.
    When the target after the call differs from the target before, the
    request was built, the transport answered, the body was read and decoded
    as an envelope without an [errors] payload, and the target is what the
    data decoder left. *)
Theorem Post_writes_target_through_data_decoder (c : Client) (ctx : context)
    (query : string) (respData : Target) (vars : option (gmap string (iface A)))
    (httpRequestOptions : list HTTPRequestOption) :
  (Post c ctx query respData vars httpRequestOptions).1 ≠ respData →
  ∃ req resp body env,
    newRequest c ctx query vars httpRequestOptions = inr req
    ∧ Client_Do c (Header_Set "Accept" "application/json; charset=utf-8"
                     (Header_Set "Content-Type" "application/json; charset=utf-8" req))
        = inr resp
    ∧ ReadAll_Body resp = inr body
    ∧ json_Unmarshal_response body = inr env
    ∧ (Errors env = None ∨ json.len (Errors env) = 0%Z)
    ∧ (Post c ctx query respData vars httpRequestOptions).1 =
      (graphqljson_UnmarshalData (Data env) respData).1.
Proof.
  unfold Post.
  destruct (newRequest c ctx query vars httpRequestOptions) as [err|req]; [done|].
  destruct (Client_Do c _) as [err|resp] eqn:Hdo; [done|].
  destruct (ReadAll_Body resp) as [err|body] eqn:Hbody; [done|].
  rewrite parseResponse_target. intros Hne.
  destruct (unmarshal_target body respData) as [Heq|(env & Henv & Hnone & Heq)]; [done|].
  by exists req, resp, body, env.
Qed.

End CallProperties.

Lemma Post_fixes_content_headers_witness :
  ∃ sent : http_Request,
    Header sent !! "Content-Type" = Some ["application/json; charset=utf-8"]
    ∧ Header sent !! "Accept" = Some ["application/json; charset=utf-8"]
    ∧ (∀ key, key ≠ "Content-Type" → key ≠ "Accept" →
         Header sent !! key =
         Header {| Method := "POST"; URL := "http://localhost:8080/query";
                   Header := {[ "Content-Type" := ["text/plain"] ]};
                   Body := "query { x }" |} !! key)
    ∧ Method sent = "POST" ∧ URL sent = "http://localhost:8080/query"
    ∧ Body sent = "query { x }"
    ∧ Post (T := example_encoders go_x) (A := Z) example_client tt "query { x }" 0 None [] =
      match Client_Do example_client sent with
      | inl err =>
          (0, Some (Errorf (D := go_x) "request failed: %w" [] (LibraryError err)))
      | inr resp =>
          match ReadAll_Body resp with
          | inl err =>
              (0, Some (Errorf (D := go_x) "failed to read response body: %w" []
                          (LibraryError err)))
          | inr body => parseResponse (D := go_x) body (StatusCode resp) 0
          end
      end.
Proof.
  apply (Post_fixes_content_headers (T := example_encoders go_x) (A := Z)
           example_client tt "query { x }" 0 None []
           {| Method := "POST"; URL := "http://localhost:8080/query";
              Header := {[ "Content-Type" := ["text/plain"] ]};
              Body := "query { x }" |}).
  reflexivity.
Defined.

Lemma Post_writes_target_through_data_decoder_witness :
  ∃ req resp body env,
    newRequest (T := example_encoders go_x) (A := Z) example_client tt "query { x }" None []
      = inr req
    ∧ Client_Do example_client
        (Header_Set "Accept" "application/json; charset=utf-8"
           (Header_Set "Content-Type" "application/json; charset=utf-8" req)) = inr resp
    ∧ ReadAll_Body resp = inr body
    ∧ json_Unmarshal_response (Decoders := go_x) body = inr env
    ∧ (Errors env = None ∨ json.len (Errors env) = 0%Z)
    ∧ (Post (T := example_encoders go_x) (A := Z) example_client tt "query { x }" 0 None []).1 =
      (graphqljson_UnmarshalData (Decoders := go_x) (Data env) 0).1.
Proof.
  apply (Post_writes_target_through_data_decoder (T := example_encoders go_x) (A := Z)
           example_client tt "query { x }" 0 None []).
  vm_compute. discriminate.
Defined.

Example Post_example :
  Post (T := example_encoders go_x) (A := Z) example_client tt "query { x }" 0 None [] =
  (1, None).
Proof. reflexivity. Qed.

(** ** The [errors] member under the decoders of Go *)

Section GoErrorsMember.
Import json.

Lemma skip_space_length s : (String.length (skip_space s) ≤ String.length s)%nat.
Proof. induction s as [|c s IH]; simpl; [lia|]. case_match; simpl; lia. Qed.

Lemma skip_digits_length s : (String.length (skip_digits s) ≤ String.length s)%nat.
Proof. induction s as [|c s IH]; simpl; [lia|]. case_match; simpl; lia. Qed.

Lemma digits1_length s r :
  digits1 s = Some r → (String.length r < String.length s)%nat.
Proof.
  destruct s as [|c s]; simpl; [done|]. case_match; [|done].
  intros [= <-]. pose proof (skip_digits_length s). lia.
Qed.

Lemma scan_number_length s r :
  scan_number s = Some r → (String.length r < String.length s)%nat.
Proof.
  unfold scan_number.
  set (s1 := match s with String c r0 => if (code c =? 45)%N then r0 else s | _ => s end).
  assert (String.length s1 ≤ String.length s)%nat as H1.
  { subst s1. destruct s as [|c s]; simpl; [lia|]. case_match; simpl; lia. }
  destruct s1 as [|c1 r1]; simpl; [done|].
  assert (∀ a, (if (code c1 =? 48)%N then Some r1
                else if is_digit c1 then Some (skip_digits r1) else None) = Some a →
               (String.length a ≤ String.length r1)%nat) as Hint.
  { intros a. pose proof (skip_digits_length r1).
    repeat case_match; intros [= <-]; lia. }
  destruct (if (code c1 =? 48)%N then Some r1
            else if is_digit c1 then Some (skip_digits r1) else None) as [s2|] eqn:H2;
    simpl; [|done].
  specialize (Hint s2 eq_refl). simpl in H1.
  assert (∀ s3, match s2 with
                | String c r0 => if (code c =? 46)%N then digits1 r0 else Some s2
                | EmptyString => Some s2
                end = Some s3 → (String.length s3 ≤ String.length s2)%nat) as Hfrac.
  { intros s3. destruct s2 as [|c2 r2]; simpl.
    - intros [= <-]. simpl. lia.
    - destruct (code c2 =? 46)%N.
      + intros Hd%digits1_length. lia.
      + intros [= <-]. simpl. lia. }
  destruct (match s2 with
            | String c r0 => if (code c =? 46)%N then digits1 r0 else Some s2
            | EmptyString => Some s2
            end) as [s3|]; simpl; [|done].
  specialize (Hfrac s3 eq_refl).
  destruct s3 as [|c3 r3]; simpl.
  - intros [= <-]. simpl in *. lia.
  - destruct ((code c3 =? 101) || (code c3 =? 69))%N.
    + destruct r3 as [|c4 r4]; [done|].
      destruct ((code c4 =? 43) || (code c4 =? 45))%N;
        intros Hd%digits1_length; cbn [String.length] in *; lia.
    + intros [= <-]. simpl in *. lia.
Qed.

Lemma scan_string_length st s r :
  scan_string st s = Some r → (String.length r < String.length s)%nat.
Proof.
  revert st. induction s as [|c s IH]; intros st; simpl; [done|].
  destruct st as [| |k]; repeat case_match; try done;
    try (intros [= <-]; lia); intros Hr%IH; lia.
Qed.

Lemma scan_literal_length lit s r :
  scan_literal lit s = Some r →
  String.length s = (String.length lit + String.length r)%nat.
Proof.
  revert s. induction lit as [|c lit IH]; intros s; simpl.
  - by intros [= <-].
  - destruct s as [|c' s]; [done|]. case_match; [|done]. intros Hr%IH. simpl. lia.
Qed.

Lemma consumed_nonempty s rest :
  (String.length rest < String.length s)%nat → consumed s rest ≠ "".
Proof.
  unfold consumed. intros H. destruct s as [|c s]; simpl in *; [lia|].
  destruct (S (String.length s) - String.length rest)%nat as [|n] eqn:Hn; [lia|].
  done.
Qed.

Lemma parse_consumes fuel :
  (∀ depth s v rest, parse_value fuel depth s = Ok v rest →
     (String.length rest < String.length s)%nat ∧ member_texts_nonempty v)
  ∧ (∀ depth s vs rest, parse_elements fuel depth s = Ok vs rest →
     (String.length rest < String.length s)%nat)
  ∧ (∀ depth s ms rest, parse_members fuel depth s = Ok ms rest →
     (String.length rest < String.length s)%nat ∧ Forall (fun m => m.1.2 ≠ "") ms).
Proof.
  induction fuel as [|fuel (IHv & IHe & IHm)]; [by split_and!|].
  split_and!.
  - intros depth s v rest. cbn [parse_value]. destruct s as [|c r]; [done|].
    cbv zeta.
    destruct (code c =? 123)%N.
    { destruct (maxNestingDepth <=? depth)%N; [done|].
      pose proof (skip_space_length r) as Hs.
      destruct (skip_space r) as [|c' r'] eqn:Hr; [done|]. cbn [String.length] in *.
      destruct (code c' =? 125)%N.
      - intros [= <- <-]. split; [lia|by constructor].
      - destruct (parse_members fuel (depth + 1) (String c' r')) as [ms rest'| |] eqn:Hm;
          cbn [scan_bind]; [|done|done].
        intros [= <- <-]. destruct (IHm _ _ _ _ Hm) as [Hlen Hms].
        cbn [String.length] in *. split; [lia|done]. }
    destruct (code c =? 91)%N.
    { destruct (maxNestingDepth <=? depth)%N; [done|].
      pose proof (skip_space_length r) as Hs.
      destruct (skip_space r) as [|c' r'] eqn:Hr; [done|]. cbn [String.length] in *.
      destruct (code c' =? 93)%N.
      - intros [= <- <-]. split; [lia|done].
      - destruct (parse_elements fuel (depth + 1) (String c' r')) as [vs rest'| |] eqn:He;
          cbn [scan_bind]; [|done|done].
        intros [= <- <-]. pose proof (IHe _ _ _ _ He) as Hlen.
        cbn [String.length] in *. split; [lia|done]. }
    destruct (code c =? 34)%N.
    { destruct (scan_string InString r) as [rest0|] eqn:Hk; [|done].
      intros [= <- <-]. apply scan_string_length in Hk.
      cbn [String.length]. split; [lia|done]. }
    destruct ((code c =? 45)%N || is_digit c).
    { destruct (scan_number (String c r)) as [rest0|] eqn:Hk; [|done].
      intros [= <- <-]. apply scan_number_length in Hk. done. }
    destruct (code c =? 116)%N.
    { destruct (scan_literal "true" (String c r)) as [rest0|] eqn:Hk; [|done].
      intros [= <- <-]. apply scan_literal_length in Hk. rewrite Hk.
      cbn [String.length]. split; [lia|done]. }
    destruct (code c =? 102)%N.
    { destruct (scan_literal "false" (String c r)) as [rest0|] eqn:Hk; [|done].
      intros [= <- <-]. apply scan_literal_length in Hk. rewrite Hk.
      cbn [String.length]. split; [lia|done]. }
    destruct (code c =? 110)%N; [|done].
    destruct (scan_literal "null" (String c r)) as [rest0|] eqn:Hk; [|done].
    intros [= <- <-]. apply scan_literal_length in Hk. rewrite Hk.
    cbn [String.length]. split; [lia|done].
  - intros depth s vs rest. cbn [parse_elements].
    destruct (parse_value fuel depth s) as [v rest1| |] eqn:Hv;
      cbn [scan_bind]; [|done|done].
    destruct (IHv _ _ _ _ Hv) as [Hlen _].
    pose proof (skip_space_length rest1) as Hs.
    destruct (skip_space rest1) as [|c r] eqn:Hr; [done|]. cbn [String.length] in Hs.
    destruct (code c =? 44)%N.
    + pose proof (skip_space_length r) as Hs'.
      destruct (parse_elements fuel depth (skip_space r)) as [vs' rest'| |] eqn:He;
        cbn [scan_bind]; [|done|done].
      intros [= <- <-]. pose proof (IHe _ _ _ _ He). lia.
    + destruct (code c =? 93)%N; [|done]. intros [= <- <-]. lia.
  - intros depth s ms rest. cbn [parse_members]. destruct s as [|c r]; [done|].
    destruct (negb (code c =? 34)%N); [done|].
    destruct (scan_string InString r) as [rest0|] eqn:Hk; [|done].
    apply scan_string_length in Hk. cbv zeta.
    pose proof (skip_space_length rest0) as Hs0.
    destruct (skip_space rest0) as [|c1 r1] eqn:Hr0; [done|]. cbn [String.length] in Hs0.
    destruct (negb (code c1 =? 58)%N); [done|].
    pose proof (skip_space_length r1) as Hs1.
    destruct (parse_value fuel depth (skip_space r1)) as [v rest2| |] eqn:Hv;
      cbn [scan_bind]; [|done|done].
    destruct (IHv _ _ _ _ Hv) as [Hlen _].
    pose proof (skip_space_length rest2) as Hs2.
    destruct (skip_space rest2) as [|c2 r2] eqn:Hr2; [done|]. cbn [String.length] in Hs2.
    destruct (code c2 =? 44)%N.
    + pose proof (skip_space_length r2) as Hs3.
      destruct (parse_members fuel depth (skip_space r2)) as [ms' rest'| |] eqn:Hm;
        cbn [scan_bind]; [|done|done].
      intros [= <- <-]. destruct (IHm _ _ _ _ Hm) as [Hlen' Hms].
      cbn [String.length]. split; [lia|].
      constructor; [|done]. by apply consumed_nonempty.
    + destruct (code c2 =? 125)%N; [|done]. intros [= <- <-].
      cbn [String.length]. split; [lia|].
      constructor; [|done]. by apply consumed_nonempty.
Qed.

Lemma parse_member_texts body ms rest :
  parse body = Ok (Object ms) rest → Forall (fun m => m.1.2 ≠ "") ms.
Proof.
  unfold parse.
  destruct (parse_value _ 0 (skip_space body)) as [v rest'| |] eqn:Hv; simpl; [|done|done].
  destruct (proj1 (parse_consumes _) _ _ _ _ Hv) as [_ Hms].
  destruct (skip_space rest'); [|done]. by intros [= -> _].
Qed.

Lemma selects_one_field key :
  selects key "data" = true → selects key "errors" = false.
Proof. unfold selects. intros ->%String.eqb_eq. reflexivity. Qed.

(** Where the decoder of [response] leaves the field [Errors]: at the text
    of the last member that selects it, if there is one. *)
Lemma decode_response_Errors ms resp :
  forallb (fun m => is_plain m.1.1) ms = true →
  ∃ resp', GoJSON.decode_response ms resp = inr resp'
    ∧ if existsb (fun m => selects m.1.1 "errors") ms
      then ∃ m, m ∈ ms ∧ Errors resp' = Some m.1.2
      else Errors resp' = Errors resp.
Proof.
  revert resp. induction ms as [|[[key raw] v] ms IH]; intros resp; simpl.
  { intros _. by exists resp. }
  intros [Hkey Hms]%andb_true_iff. rewrite Hkey. simpl.
  destruct (selects key "data") eqn:Hdata.
  - rewrite (selects_one_field _ Hdata). simpl.
    destruct (IH {| Data := Some raw; Errors := Errors resp |} Hms) as (resp' & -> & H).
    exists resp'. split; [done|].
    destruct (existsb _ ms); [|done].
    destruct H as (m & Hm & HE). exists m. split; [by right|done].
  - destruct (selects key "errors") eqn:Herrors; simpl.
    + destruct (IH {| Data := Data resp; Errors := Some raw |} Hms) as (resp' & -> & H).
      exists resp'. split; [done|].
      destruct (existsb _ ms).
      * destruct H as (m & Hm & HE). exists m. split; [by right|done].
      * exists (key, raw, v). split; [by left|done].
    + destruct (IH resp Hms) as (resp' & -> & H).
      exists resp'. split; [done|].
      destruct (existsb _ ms); [|done].
      destruct H as (m & Hm & HE). exists m. split; [by right|done].
Qed.

End GoErrorsMember.

Section GoErrorsMemberOutcome.
Context (Target : Type)
        (UnmarshalData : json.RawMessage -> Target -> Target * option json.Error).
Local Abbreviation go := (GoJSON.decoders Target UnmarshalData).

(** X12: under the decoders of Go, a body that is an object with a member
    named [errors] never gives success, whatever the member holds ([null]
    and the empty array included) and whatever the status is: the call
    returns an error and the target is not written. *)
Theorem errors_member_never_success (body : string)
    (ms : list (string * string * json.Value)) (rest : string)
    (httpCode : Z) (result : Target) :
  json.parse body = json.Ok (json.Object ms) rest →
  forallb (fun m => json.is_plain m.1.1) ms = true →
  existsb (fun m => json.selects m.1.1 "errors") ms = true →
  (parseResponse (D := go) body httpCode result).1 = result
  ∧ (parseResponse (D := go) body httpCode result).2 ≠ None.
Proof.
  intros Hparse Hplain Hsel.
  pose proof (parse_member_texts _ _ _ Hparse) as Htexts.
  destruct (decode_response_Errors ms {| Data := None; Errors := None |} Hplain)
    as (resp & Hresp & HE).
  rewrite Hsel in HE. destruct HE as (m & Hm & HE).
  assert (json_Unmarshal_response (Decoders := go) body = inr resp) as Henv.
  { simpl. unfold GoJSON.Unmarshal_response. by rewrite Hparse. }
  assert (Errors resp ≠ None) as Hnil by (by rewrite HE).
  assert (0 < json.len (Errors resp))%Z as Hlen.
  { rewrite HE. simpl. rewrite Forall_forall in Htexts.
    specialize (Htexts m Hm). destruct (m.1.2); [done|simpl; lia]. }
  unfold parseResponse.
  rewrite (unmarshal_errors (D := go) _ _ _ Henv Hnil Hlen).
  destruct (json_Unmarshal_GqlErrorList (Decoders := go) body) as [e|errors];
    destruct ((httpCode <? 200) || (299 <? httpCode))%Z; simpl; done.
Qed.

End GoErrorsMemberOutcome.

Lemma errors_member_never_success_witness :
  (parseResponse (D := go_x) (json.text "{'data':{'x':1},'errors':null}") 200 0).1 = 0
  ∧ (parseResponse (D := go_x) (json.text "{'data':{'x':1},'errors':null}") 200 0).2 ≠ None.
Proof.
  eapply (errors_member_never_success Z GoJSON.UnmarshalData_x
            (json.text "{'data':{'x':1},'errors':null}")); reflexivity.
Defined.

(** ** Mismatching data beside an empty [errors] member *)

(** The data decoder of the spec's example rejects a string where the field
    [x] expects an integer. *)
Example UnmarshalData_x_mismatch :
  GoJSON.UnmarshalData_x (Some (json.text "{'x':'one'}")) 0 =
  (0, Some json.UnmarshalTypeError).
Proof. reflexivity. Qed.

Section GoEmptyErrorsMismatch.
Context (Target : Type)
        (UnmarshalData : json.RawMessage -> Target -> Target * option json.Error).
Local Abbreviation go := (GoJSON.decoders Target UnmarshalData).

(** C6 (where the code departs from it): with status 200, an [errors]
    member that is the empty array or [null], and a data field that does not
    match the target, the data decoder is never reached.  The
    [json.RawMessage] field [Errors] holds the text of the member, two or
    four bytes, so the body goes to the error branch, and the call returns an
    ErrorResponse that holds no NetworkError and an error list without
    entries, where the claim has a plain decoding error.  The target is not
    written. *)
Theorem data_mismatch_beside_empty_errors (result : Target) :
  parseResponse (D := go) (json.text "{'data':{'x':'one'},'errors':[]}") 200 result =
    (result, Some (ErrorResponse_error (@Build_ErrorResponse go None (Some []))))
  ∧ parseResponse (D := go) (json.text "{'data':{'x':'one'},'errors':null}") 200 result =
    (result, Some (ErrorResponse_error (@Build_ErrorResponse go None (Some [])))).
Proof. split; reflexivity. Qed.

End GoEmptyErrorsMismatch.
